(** * CSE140-Website: the loading view, the class-name utility and the
      deployment base path

    A shallow embedding of
      - [src/pages/Home.tsx]      ([cn], [GoogleDocEmbed], [Home], and the
                                   hover listeners of [Spotlight]),
      - [components/ui/iframe-skeleton.tsx]  ([IframeSkeleton]),
      - [vite.config.ts]          (the [base] computed by [defineConfig]),
      - [scripts/build-github-pages.sh]  (the base path it exports),
    together with the preload registry that [Home] drives through
    [useIframePreloader].

    JavaScript values are modelled by the types the TypeScript annotations
    give them: [string | undefined] is [option string], the argument type of
    [cn] is an inductive with one constructor per alternative, React state is
    a record that the handlers transform, and a rendered JSX tree is a value
    of the inductive [Jsx.node]. *)

From Stdlib Require Import Ascii String.
From stdpp Require Import base decidable list gmap strings.

Local Open Scope string_scope.
Set Warnings "-register-all,-clear-no-such-hyp".

(** ** JavaScript string primitives used by the sources *)

Module Js.

(** [String.prototype.endsWith(searchString)]: compare the last
    [searchString.length] characters of the receiver. *)
Definition endsWith (s searchString : string) : bool :=
  let len := String.length s in
  let searchLength := String.length searchString in
  if Nat.leb searchLength len
  then String.eqb (String.substring (len - searchLength) searchLength s)
                  searchString
  else false.

(** [String.prototype.split(sep)] for a one-character separator.  The
    result is never empty: a string without the separator is returned
    whole, and the empty string gives the empty string as only piece. *)
Fixpoint split (sep : ascii) (s : string) : list string :=
  match s with
  | EmptyString => [EmptyString]
  | String c rest =>
      if Ascii.eqb c sep then EmptyString :: split sep rest
      else match split sep rest with
           | piece :: pieces => String c piece :: pieces
           | [] => [String c EmptyString]
           end
  end.

(** Truthiness of a [string | undefined]: [undefined] and the empty string
    are falsy. *)
Definition truthy (v : option string) : bool :=
  match v with
  | Some (String _ _) => true
  | Some EmptyString => false
  | None => false
  end.

(** [ToString] of a [string | undefined], as a template literal applies
    it. *)
Definition to_string (v : option string) : string :=
  match v with
  | Some s => s
  | None => "undefined"
  end.

End Js.

(** ** [cn]: the class-name utility of Home.tsx *)

Module Cn.

(** [string | undefined | null | boolean] *)
Inductive class_value : Type :=
| Str (s : string)
| Undefined
| Null
| Bool (b : bool).

(** [Boolean(v)] *)
Definition Boolean (v : class_value) : bool :=
  match v with
  | Str EmptyString => false
  | Str (String _ _) => true
  | Undefined => false
  | Null => false
  | Bool b => b
  end.

(** The text [Array.prototype.join] writes for one element: [undefined]
    and [null] give the empty string, everything else its [ToString]. *)
Definition element_text (v : class_value) : string :=
  match v with
  | Str s => s
  | Undefined => EmptyString
  | Null => EmptyString
  | Bool true => "true"
  | Bool false => "false"
  end.

(** [Array.prototype.join(sep)]: the loop of the language definition, which
    walks the array with the result so far [R] and writes the separator
    before every element but the first. *)
Fixpoint join_loop (sep : string) (first : bool) (R : string)
         (elements : list class_value) : string :=
  match elements with
  | [] => R
  | element :: rest =>
      let R1 := if first then R else R +:+ sep in
      join_loop sep false (R1 +:+ element_text element) rest
  end.

Definition join (sep : string) (elements : list class_value) : string :=
  join_loop sep true EmptyString elements.

(** [classes.filter(Boolean).join(' ')] *)
Definition cn (classes : list class_value) : string :=
  join " " (List.filter Boolean classes).

(** The claim's reading: the texts of the entries, separated by single
    spaces. *)
Fixpoint space_separated (texts : list string) : string :=
  match texts with
  | [] => EmptyString
  | [t] => t
  | t :: more => t +:+ " " +:+ space_separated more
  end.

(** The truthy entries of an argument list, in order, as text. *)
Fixpoint truthy_texts (classes : list class_value) : list string :=
  match classes with
  | [] => []
  | v :: rest =>
      if Boolean v then element_text v :: truthy_texts rest
      else truthy_texts rest
  end.

End Cn.

(** ** The deployment base path of vite.config.ts *)

Module ViteConfig.

(** The two entries of [process.env] the configuration reads. *)
Record env : Type := {
  VITE_BASE_PATH : option string;
  GITHUB_REPOSITORY : option string
}.

(** [process.env.GITHUB_REPOSITORY.split('/')[1]]: [undefined] when the
    value has no ["/"]. *)
Definition repoName (repository : string) : option string :=
  Js.split "/"%char repository !! 1%nat.

(** The value of [base] when the first [if] statement is left. *)
Definition detected_base (e : env) : string :=
  let fallback :=
    match GITHUB_REPOSITORY e with
    | Some repository =>
        if Js.truthy (Some repository)
        then "/" +:+ Js.to_string (repoName repository) +:+ "/"
        else "/"
    | None => "/"
    end in
  match VITE_BASE_PATH e with
  | Some base => if negb (Js.truthy (Some base)) then fallback else base
  | None => fallback
  end.

(** [if (base !== "/" && !base.endsWith("/")) base = base + "/"] *)
Definition ensure_trailing_slash (base : string) : string :=
  if negb (String.eqb base "/") && negb (Js.endsWith base "/")
  then base +:+ "/"
  else base.

Record server_options : Type := { host : string; port : N }.

Record user_config : Type := {
  base : string;
  server : server_options;
  plugins : list string
}.

(** The callback given to [defineConfig].  The plugin array is
    [[react(), mode === "development" && componentTagger()].filter(Boolean)];
    a plugin is represented by its name. *)
Definition defineConfig (mode : string) (e : env) : user_config :=
  {| base := ensure_trailing_slash (detected_base e);
     server := {| host := "::"; port := 8080%N |};
     plugins :=
       omap id
         [ Some "react";
           if String.eqb mode "development" then Some "componentTagger"
           else None ] |}.

(** The part of a string after its first ["/"]. *)
Fixpoint after_first_slash (s : string) : string :=
  match s with
  | EmptyString => EmptyString
  | String c rest =>
      if Ascii.eqb c "/"%char then rest else after_first_slash rest
  end.

(** The claim's reading of the three cases: [VITE_BASE_PATH] itself, with a
    ["/"] appended if missing, when that variable is set; the part of
    [GITHUB_REPOSITORY] after its first ["/"], put between two slashes, when
    only that variable is set; and ["/"] otherwise. *)
Definition claimed_base (e : env) : string :=
  match VITE_BASE_PATH e, GITHUB_REPOSITORY e with
  | Some v, _ => if Js.endsWith v "/" then v else v +:+ "/"
  | None, Some repository => "/" +:+ after_first_slash repository +:+ "/"
  | None, None => "/"
  end.

(** A piece of a repository name: a string without ["/"]. *)
Fixpoint no_slash (s : string) : bool :=
  match s with
  | EmptyString => true
  | String c rest => negb (Ascii.eqb c "/"%char) && no_slash rest
  end.

(** What may follow the second piece: nothing, or a ["/"] and more. *)
Definition piece_end (rest : string) : bool :=
  match rest with
  | EmptyString => true
  | String c _ => Ascii.eqb c "/"%char
  end.

End ViteConfig.

(** ** Rendered JSX *)

Module Jsx.

(** A rendered tree.  [H] is the type of the event handlers an element can
    carry.  [Nothing] is a child that React does not render ([false],
    [null], [undefined]): what [cond && <div/>] leaves when [cond] is
    false.  The [ref] prop is not part of the output. *)
Inductive node (H : Type) : Type :=
| Element (tag : string)
          (attrs : list (string * string))
          (style : list (string * string))
          (handlers : list (string * H))
          (children : list (node H))
| Text (s : string)
| Nothing.

Arguments Element {H} tag attrs style handlers children.
Arguments Text {H} s.
Arguments Nothing {H}.

(** First value bound to a key in a prop list. *)
Fixpoint assoc {V : Type} (key : string) (entries : list (string * V))
  : option V :=
  match entries with
  | [] => None
  | (k, v) :: rest => if String.eqb k key then Some v else assoc key rest
  end.

Section Queries.
Context {H : Type}.

Definition tag_of (n : node H) : option string :=
  match n with Element t _ _ _ _ => Some t | _ => None end.

Definition attr (key : string) (n : node H) : option string :=
  match n with Element _ a _ _ _ => assoc key a | _ => None end.

Definition style_of (key : string) (n : node H) : option string :=
  match n with Element _ _ s _ _ => assoc key s | _ => None end.

Definition handler_of (key : string) (n : node H) : option H :=
  match n with Element _ _ _ h _ => assoc key h | _ => None end.

Definition handler_names (n : node H) : list string :=
  match n with Element _ _ _ h _ => map fst h | _ => [] end.

(** Every element that is mounted by a tree, the root first. *)
Fixpoint elements (n : node H) : list (node H) :=
  match n with
  | Element _ _ _ _ children => n :: concat (map elements children)
  | Text _ => []
  | Nothing => []
  end.

(** Every piece of text a tree shows, in document order. *)
Fixpoint texts (n : node H) : list string :=
  match n with
  | Element _ _ _ _ children => concat (map texts children)
  | Text s => [s]
  | Nothing => []
  end.

(** The mounted elements with a given tag. *)
Definition by_tag (t : string) (n : node H) : list (node H) :=
  List.filter
    (fun e => match tag_of e with
              | Some t' => String.eqb t' t
              | None => false
              end)
    (elements n).

(** The mounted elements with a given [className]. *)
Definition by_class (c : string) (n : node H) : list (node H) :=
  List.filter
    (fun e => match attr "className" e with
              | Some c' => String.eqb c' c
              | None => false
              end)
    (elements n).

End Queries.

(** The tags of a tree without its props, styles, handlers and texts. *)
Inductive shape : Type :=
| ShapeElement (tag : string) (children : list shape)
| ShapeText
| ShapeNothing.

Fixpoint shape_of {H : Type} (n : node H) : shape :=
  match n with
  | Element t _ _ _ children => ShapeElement t (map shape_of children)
  | Text _ => ShapeText
  | Nothing => ShapeNothing
  end.

End Jsx.

(** ** [IframeSkeleton]: the placeholder component *)

Module Skeleton.
Import Jsx.

(** [IframeSkeletonProps]: every prop is optional. *)
Record props : Type := {
  height : option string;
  className : option string;
  text : option string
}.

(** A default of a destructured parameter applies when the prop is
    [undefined]. *)
Definition or_default (d : string) (v : option string) : string :=
  match v with
  | Some s => s
  | None => d
  end.

Definition IframeSkeleton {H : Type} (p : props) : node H :=
  let height := or_default "1200px" (height p) in
  let className := or_default EmptyString (className p) in
  let text := or_default "Loading calendar..." (text p) in
  Element "div"
    [("className", "w-full " +:+ className)]
    [("height", height)]
    []
    [ Element "Card"
        [("className",
          "w-full h-full p-8 bg-gray-50 dark:bg-gray-900 border border-gray-200 dark:border-gray-700 flex items-center justify-center")]
        [] []
        [ Element "div"
            [("className",
              "flex items-center gap-3 text-gray-500 dark:text-gray-400")]
            [] []
            [ Element "div"
                [("className",
                  "animate-spin rounded-full h-8 w-8 border-b-2 border-blue-600")]
                [] [] [];
              Element "span"
                [("className", "text-lg font-medium")]
                [] []
                [Text text] ] ] ].

End Skeleton.

(** ** [GoogleDocEmbed]: the embedded-resource view of Home.tsx *)

Module GoogleDocEmbed.
Import Jsx.

Definition GOOGLE_DOC_URL : string :=
  "https://docs.google.com/document/d/1Ppt5T9w8sUsd-aUSZ9rcst4KtCdgOcg6NuV6-tWE814/edit?tab=t.0".

(** The hooks of one instance: [useState(true)] and [useRef(null)].  The
    ref holds the tag of the element React attached to it, if any. *)
Record hooks : Type := {
  isLoading : bool;
  iframeRef : option string
}.

Definition initial_hooks : hooks :=
  {| isLoading := true; iframeRef := None |}.

(** The setter returned by [useState]: it writes the state cell and leaves
    the other hooks alone. *)
Definition setIsLoading (value : bool) (h : hooks) : hooks :=
  {| isLoading := value; iframeRef := iframeRef h |}.

(** An event handler is a transformer of the hooks. *)
Definition handler : Type := hooks -> hooks.

(** [const handleIframeLoad = () => { setIsLoading(false); }] *)
Definition handleIframeLoad : handler := setIsLoading false.

Definition placeholder_class : string := "absolute inset-0 z-10".

(** The JSX the component returns for the current hooks. *)
Definition render (h : hooks) : node handler :=
  Element "div" [("className", "bg-white pb-8")] [] []
    [ Element "div" [("className", "container mx-auto px-4 py-8")] [] []
        [ Element "div" [("className", "w-full relative")]
            [("height", "1200px")] []
            [ (if isLoading h
               then Element "div" [("className", placeholder_class)] [] []
                      [ Skeleton.IframeSkeleton
                          {| Skeleton.height := Some "1200px";
                             Skeleton.className := None;
                             Skeleton.text := Some "Loading Syllabus..." |} ]
               else Nothing);
              Element "iframe"
                [ ("src", GOOGLE_DOC_URL);
                  ("className",
                   "w-full h-full border-0 rounded-lg shadow-lg");
                  ("title", "Course Document");
                  ("loading", "eager") ]
                [ ("opacity", if isLoading h then "0" else "1");
                  ("transition", "opacity 0.3s ease-in-out") ]
                [ ("onLoad", handleIframeLoad) ]
                [] ] ] ].

(** What a reader of the page can observe. *)
Definition placeholder_mounted (tree : node handler) : bool :=
  match by_class placeholder_class tree with
  | [] => false
  | _ :: _ => true
  end.

Definition content_surface (tree : node handler) : option (node handler) :=
  head (by_tag "iframe" tree).

(** *** One instance and the events that reach it *)

Inductive phase : Type := Displayed | TornDown.

Record instance : Type := {
  stage : phase;
  state : hooks
}.

(** First render and commit: React attaches the iframe to the ref. *)
Definition mount : instance :=
  {| stage := Displayed;
     state := {| isLoading := isLoading initial_hooks;
                 iframeRef := Some "iframe" |} |}.

(** A signal of the embedding surface.  [prop] is the React prop the DOM
    event is delivered to ("onLoad", "onError", ...).  [underlying_error]
    records whether the document behind the frame failed; the browser fires
    the same [load] event either way and hands this bit to nobody. *)
Record signal : Type := {
  prop : string;
  underlying_error : bool
}.

Definition load_signal (failed : bool) : signal :=
  {| prop := "onLoad"; underlying_error := failed |}.

Inductive event : Type :=
| Signal (s : signal)
| Teardown.

(** The callback the content surface registered for a prop. *)
Definition listener (name : string) (h : hooks) : option handler :=
  match content_surface (render h) with
  | Some frame => handler_of name frame
  | None => None
  end.

(** Delivery of a signal.  To a displayed instance it runs the callback
    the content surface registered for the prop, if there is one, on the
    hooks of the instance.  Once the instance is torn down its iframe is out
    of the document: React calls none of its handlers any more and drops a
    state update of an unmounted component, so nothing changes. *)
Definition deliver (s : signal) (i : instance) : instance :=
  match stage i with
  | Displayed =>
      match listener (prop s) (state i) with
      | Some callback => {| stage := stage i; state := callback (state i) |}
      | None => i
      end
  | TornDown => i
  end.

(** Unmounting detaches the ref and ends the display of the instance. *)
Definition teardown (i : instance) : instance :=
  {| stage := TornDown;
     state := {| isLoading := isLoading (state i); iframeRef := None |} |}.

Definition step (i : instance) (ev : event) : instance :=
  match ev with
  | Signal s => deliver s i
  | Teardown => teardown i
  end.

Definition run (i : instance) (evs : list event) : instance :=
  foldl step i evs.

(** The tree on the page: nothing once the instance is torn down. *)
Definition view (i : instance) : option (node handler) :=
  match stage i with
  | Displayed => Some (render (state i))
  | TornDown => None
  end.

End GoogleDocEmbed.

(** ** The preload coordinator behind [useIframePreloader] *)

Module Preloader.

Inductive resource_kind : Type := Document | Scene.

Record descriptor : Type := {
  id : string;
  sourceUrl : string;
  kind : resource_kind
}.

(** The process-wide registry of submitted ids, and the hidden embedding
    surfaces created so far (the newest first). *)
Record coordinator : Type := {
  registry : gset string;
  instances : list descriptor
}.

Definition process_start : coordinator :=
  {| registry := ∅; instances := [] |}.

(** Modelled from the spec: the body of [useIframePreloader] (the module
    hooks/use-iframe-preloader, of which Home.tsx has only the import and
    the call).  For one descriptor whose id is not yet in the registry: add
    the id, then instantiate a hidden surface bound to the descriptor; for
    a descriptor already registered: nothing. *)
Definition ensure_one (c : coordinator) (d : descriptor) : coordinator :=
  if decide (id d ∈ registry c)
  then c
  else {| registry := {[ id d ]} ∪ registry c;
          instances := d :: instances c |}.

(** Modelled from the spec: the operation [EnsurePreloaded(descriptors)] of
    the same missing module, which treats the descriptors one after the
    other. *)
Definition EnsurePreloaded (descriptors : list descriptor) (c : coordinator)
  : coordinator :=
  foldl ensure_one c descriptors.

(** A sequence of calls [L1, ..., Ln] from the start of the process. *)
Definition calls (lists : list (list descriptor)) : coordinator :=
  foldl (fun c descriptors => EnsurePreloaded descriptors c)
        process_start lists.

(** The number of hidden preload instances ever created for an id. *)
Definition instantiated (i : string) (c : coordinator) : nat :=
  length (filter (fun d => id d = i) (instances c)).

(** The registry and the instances agree: an id has one instance if it is
    registered and none otherwise. *)
Definition consistent (c : coordinator) : Prop :=
  forall i, instantiated i c = if decide (i ∈ registry c) then 1 else 0.

(** The ids that appear in the union of the lists. *)
Definition ids_of (lists : list (list descriptor)) : gset string :=
  list_to_set (id <$> concat lists).

(** [Home] calls [useIframePreloader()] on every mount and renders one
    [GoogleDocEmbed]; the descriptors the hook knows are fixed inside the
    missing module and are a parameter here. *)
Definition Home (known : list descriptor) (c : coordinator)
  : coordinator * GoogleDocEmbed.instance :=
  (EnsurePreloaded known c, GoogleDocEmbed.mount).

End Preloader.

(** ** Event traces of [GoogleDocEmbed] *)

Module Traces.
Import GoogleDocEmbed.

(** An event that reaches the [onLoad] prop of the iframe. *)
Definition is_load (ev : event) : bool :=
  match ev with
  | Signal s => String.eqb "onLoad" (prop s)
  | Teardown => false
  end.

Definition is_teardown (ev : event) : bool :=
  match ev with
  | Signal _ => false
  | Teardown => true
  end.

(** Whether a signal to [onLoad] arrives before the first teardown. *)
Fixpoint load_while_displayed (evs : list event) : bool :=
  match evs with
  | [] => false
  | Signal s :: rest =>
      String.eqb "onLoad" (prop s) || load_while_displayed rest
  | Teardown :: _ => false
  end.

End Traces.

(** ** scripts/build-github-pages.sh: the base path handed to the build *)

Module BuildScript.

(** What the script reads: its first argument, and what the external
    commands answer.  [remote_url] is the output of
    [git remote get-url origin 2>/dev/null || echo ""] and [remote_basename]
    that of [basename -s .git "$GIT_REMOTE" 2>/dev/null || echo ""]. *)
Record invocation : Type := {
  arg1 : option string;
  git_installed : bool;
  remote_url : string;
  remote_basename : string
}.

Definition DEFAULT_NAME : string := "CSE-140-Website".

(** The expansion of ["$1"]: empty when the argument is missing. *)
Definition expand (a : option string) : string :=
  match a with
  | Some s => s
  | None => EmptyString
  end.

(** [[ -z "$x" ]] *)
Definition is_empty (x : string) : bool :=
  match x with
  | EmptyString => true
  | String _ _ => false
  end.

(** ["${x:-word}"]: [word] when [x] is unset or empty. *)
Definition or_word (word x : string) : string :=
  if is_empty x then word else x.

(** [[[ "$x" == *.github.io ]]]: the glob matches the names that end with
    [.github.io]. *)
Definition is_user_page (x : string) : bool :=
  Js.endsWith x ".github.io".

Record outcome : Type := {
  REPO_NAME : string;
  BASE_PATH : string
}.

Definition project_site (name : string) : outcome :=
  {| REPO_NAME := name; BASE_PATH := "/" +:+ name +:+ "/" |}.

(** "Determine repository name": the values of [REPO_NAME] and [BASE_PATH]
    when the outer [if] statement is left. *)
Definition determine (i : invocation) : outcome :=
  let REPO_NAME := or_word DEFAULT_NAME (expand (arg1 i)) in
  if is_empty (expand (arg1 i))
     || String.eqb (expand (arg1 i)) "USER_PAGES"
     || String.eqb (expand (arg1 i)) "user.github.io"
  then
    if git_installed i then
      let GIT_REMOTE := remote_url i in
      if negb (is_empty GIT_REMOTE) then
        let DETECTED_NAME := remote_basename i in
        if is_user_page DETECTED_NAME
        then {| REPO_NAME := EmptyString; BASE_PATH := "/" |}
        else project_site (or_word DEFAULT_NAME DETECTED_NAME)
      else project_site DEFAULT_NAME
    else project_site DEFAULT_NAME
  else
    if is_user_page REPO_NAME || String.eqb REPO_NAME "USER_PAGES"
    then {| REPO_NAME := REPO_NAME; BASE_PATH := "/" |}
    else project_site REPO_NAME.

(** The base path the script prints under "Building for GitHub Pages",
    before the build. *)
Definition announced_base_path (o : outcome) : string :=
  if is_empty (REPO_NAME o) || String.eqb (REPO_NAME o) "USER_PAGES"
  then "/"
  else "/" +:+ REPO_NAME o +:+ "/".

(** [export VITE_BASE_PATH="$BASE_PATH"]: the environment of the build,
    where [GITHUB_REPOSITORY] is whatever the caller's environment has. *)
Definition build_env (i : invocation) (ambient_repository : option string)
  : ViteConfig.env :=
  {| ViteConfig.VITE_BASE_PATH := Some (BASE_PATH (determine i));
     ViteConfig.GITHUB_REPOSITORY := ambient_repository |}.

End BuildScript.

(** ** [Spotlight]: the hover listeners of Home.tsx *)

Module Spotlight.

(** What a callback does when it is called. *)
Inductive callback_body : Type :=
| HandleMouseMove
| SetIsHovered (value : bool).

(** A function object: evaluating a function expression creates a new
    object, and listeners are compared by object identity. *)
Record function_object : Type := {
  identity : nat;
  body : callback_body
}.

Definition listener_list : Type := list (string * function_object).

Definition same_listener (type : string) (f : function_object)
           (entry : string * function_object) : bool :=
  String.eqb (fst entry) type && Nat.eqb (identity (snd entry)) (identity f).

(** [target.addEventListener(type, f)]: nothing when the same function is
    registered for the type already, appended otherwise. *)
Definition addEventListener (type : string) (f : function_object)
           (ls : listener_list) : listener_list :=
  if existsb (same_listener type f) ls then ls
  else (ls ++ [(type, f)])%list.

(** [target.removeEventListener(type, f)]: the entry with that type and
    that function is removed; nothing when there is none. *)
Fixpoint removeEventListener (type : string) (f : function_object)
         (ls : listener_list) : listener_list :=
  match ls with
  | [] => []
  | entry :: rest =>
      if same_listener type f entry then rest
      else entry :: removeEventListener type f rest
  end.

(** The listeners of the parent element and the identity the next function
    object gets. *)
Record dom : Type := {
  parent_listeners : listener_list;
  next_identity : nat
}.

(** The body of the second effect, for a parent element that is
    there: [handleMouseMove] is the memoised callback, the two arrow
    functions are created on the spot. *)
Definition effect_setup (handleMouseMove : function_object) (d : dom) : dom :=
  let enter := {| identity := next_identity d; body := SetIsHovered true |} in
  let leave :=
    {| identity := S (next_identity d); body := SetIsHovered false |} in
  {| parent_listeners :=
       addEventListener "mouseleave" leave
         (addEventListener "mouseenter" enter
            (addEventListener "mousemove" handleMouseMove
               (parent_listeners d)));
     next_identity := S (S (next_identity d)) |}.

(** The function the effect returns: it creates two arrow functions of its
    own and asks to remove them. *)
Definition effect_cleanup (handleMouseMove : function_object) (d : dom)
  : dom :=
  let enter := {| identity := next_identity d; body := SetIsHovered true |} in
  let leave :=
    {| identity := S (next_identity d); body := SetIsHovered false |} in
  {| parent_listeners :=
       removeEventListener "mouseleave" leave
         (removeEventListener "mouseenter" enter
            (removeEventListener "mousemove" handleMouseMove
               (parent_listeners d)));
     next_identity := S (S (next_identity d)) |}.

(** The effect as React runs it: [if (!parentElement) return;] registers
    nothing and returns no cleanup. *)
Definition effect (has_parent : bool) (handleMouseMove : function_object)
           (d : dom) : dom * option (dom -> dom) :=
  if has_parent
  then (effect_setup handleMouseMove d, Some (effect_cleanup handleMouseMove))
  else (d, None).

(** One mount of the component followed by its unmount. *)
Definition mount_unmount (has_parent : bool)
           (handleMouseMove : function_object) (d : dom) : dom :=
  match effect has_parent handleMouseMove d with
  | (d', Some cleanup) => cleanup d'
  | (d', None) => d'
  end.

(** Every function object of the list was created before [next]. *)
Definition created_before (next : nat) (ls : listener_list) : Prop :=
  Forall (fun entry => identity (snd entry) < next) ls.

(** The listeners of a type, in the order they are called. *)
Definition listeners_of (type : string) (ls : listener_list)
  : list function_object :=
  map snd (List.filter (fun entry => String.eqb (fst entry) type) ls).

(** [isHovered] after a DOM event of a type is dispatched to the parent. *)
Definition dispatch (type : string) (ls : listener_list) (isHovered : bool)
  : bool :=
  foldl (fun hovered f =>
           match body f with
           | SetIsHovered value => value
           | HandleMouseMove => hovered
           end)
        isHovered (listeners_of type ls).

End Spotlight.

(** * Properties *)

(** ** Strings *)

Module JsFacts.
Import Js.

Lemma append_cons (ch : ascii) (a b : string) :
  String ch a +:+ b = String ch (a +:+ b).
Proof. reflexivity. Qed.

Lemma append_assoc (a b c : string) : (a +:+ b) +:+ c = a +:+ (b +:+ c).
Proof.
  induction a as [|ch a IH]; [reflexivity|].
  rewrite !append_cons. now rewrite IH.
Qed.

Lemma append_empty_r (a : string) : a +:+ EmptyString = a.
Proof.
  induction a as [|ch a IH]; [reflexivity|].
  rewrite append_cons. now rewrite IH.
Qed.

Lemma length_append (a b : string) :
  String.length (a +:+ b) = String.length a + String.length b.
Proof.
  induction a as [|ch a IH]; [reflexivity|].
  rewrite append_cons. simpl. now rewrite IH.
Qed.

(** Skipping a whole prefix with [substring]. *)
Lemma substring_skip (a b : string) (m : nat) :
  String.substring (String.length a) m (a +:+ b) = String.substring 0 m b.
Proof.
  induction a as [|ch a IH]; [reflexivity|].
  rewrite append_cons. simpl. exact IH.
Qed.

Lemma substring_whole (b : string) :
  String.substring 0 (String.length b) b = b.
Proof. induction b as [|ch b IH]; simpl; [reflexivity | now rewrite IH]. Qed.

(** A string that was just given a suffix ends with it. *)
Lemma endsWith_append (a suffix : string) :
  endsWith (a +:+ suffix) suffix = true.
Proof.
  unfold endsWith. rewrite length_append.
  destruct (Nat.leb_spec (String.length suffix)
              (String.length a + String.length suffix)) as [_|Hlt]; [|lia].
  replace (String.length a + String.length suffix - String.length suffix)
    with (String.length a) by lia.
  rewrite substring_skip, substring_whole. apply String.eqb_refl.
Qed.

(** [split] gives at least one piece. *)
Lemma split_nonempty (sep : ascii) (s : string) : split sep s <> [].
Proof.
  destruct s as [|c rest]; simpl; [discriminate|].
  destruct (Ascii.eqb c sep); [discriminate|].
  destruct (split sep rest); discriminate.
Qed.

End JsFacts.

(** ** [cn] *)

Module CnFacts.
Import Cn JsFacts.

(** The result so far is a prefix of what the loop returns. *)
Lemma join_loop_acc (sep : string) (elements : list class_value) :
  forall R, join_loop sep false R elements
            = R +:+ join_loop sep false EmptyString elements.
Proof.
  induction elements as [|e rest IH]; intros R; simpl.
  - now rewrite append_empty_r.
  - rewrite (IH ((R +:+ sep) +:+ element_text e)).
    rewrite (IH ((EmptyString +:+ sep) +:+ element_text e)).
    change (EmptyString +:+ sep) with sep. now rewrite !append_assoc.
Qed.

Lemma join_cons (sep : string) (e : class_value) (rest : list class_value) :
  join sep (e :: rest) = element_text e +:+ join_loop sep false EmptyString rest.
Proof.
  unfold join. simpl. change (EmptyString +:+ element_text e) with (element_text e).
  apply join_loop_acc.
Qed.

(** After the first element every element is written behind a separator. *)
Lemma join_loop_rest (sep : string) (e : class_value)
      (rest : list class_value) :
  join_loop sep false EmptyString (e :: rest) = sep +:+ join sep (e :: rest).
Proof.
  rewrite join_cons. simpl. rewrite join_loop_acc.
  change (EmptyString +:+ sep) with sep. now rewrite append_assoc.
Qed.

(** [join] writes the texts of its elements with the separator between
    neighbours. *)
Lemma join_space_separated (elements : list class_value) :
  join " " elements = space_separated (map element_text elements).
Proof.
  induction elements as [|e rest IH]; [reflexivity|].
  rewrite join_cons. destruct rest as [|e' rest'].
  - simpl. apply append_empty_r.
  - rewrite join_loop_rest, IH. reflexivity.
Qed.

Lemma truthy_texts_filter (classes : list class_value) :
  truthy_texts classes = map element_text (List.filter Boolean classes).
Proof.
  induction classes as [|v rest IH]; simpl; [reflexivity|].
  destruct (Boolean v); simpl; now rewrite IH.
Qed.

Lemma filter_drop_falsy (pre post : list class_value) (v : class_value) :
  Boolean v = false ->
  List.filter Boolean (pre ++ v :: post) = List.filter Boolean (pre ++ post).
Proof.
  intros Hv. rewrite !List.filter_app. simpl. now rewrite Hv.
Qed.

Lemma filter_all_falsy (classes : list class_value) :
  forallb (fun v => negb (Boolean v)) classes = true ->
  List.filter Boolean classes = [].
Proof.
  induction classes as [|v rest IH]; simpl; [reflexivity|].
  destruct (Boolean v); simpl; [discriminate | exact IH].
Qed.

(** C9.  For every argument list, [cn] returns the truthy entries, in
    order, separated by single spaces.  An [undefined], [null], [false] or
    empty-string entry anywhere in the list changes nothing, and a list
    whose entries are all falsy (the empty list among them) gives the empty
    string. *)
Theorem cn_joins_truthy_entries (classes : list class_value) :
  cn classes = space_separated (truthy_texts classes)
  /\ (forall pre post v,
         In v [Undefined; Null; Bool false; Str EmptyString] ->
         cn (pre ++ v :: post) = cn (pre ++ post))
  /\ (forallb (fun v => negb (Boolean v)) classes = true -> cn classes = EmptyString).
Proof.
  split; [|split].
  - unfold cn. rewrite join_space_separated. now rewrite truthy_texts_filter.
  - intros pre post v Hv. unfold cn. rewrite filter_drop_falsy; [reflexivity|].
    simpl in Hv. destruct Hv as [<-|[<-|[<-|[<-|[]]]]]; reflexivity.
  - intros Hall. unfold cn. now rewrite filter_all_falsy.
Qed.

Lemma cn_joins_truthy_entries_witness :
  cn [Str "w-full"; Undefined; Bool false; Str EmptyString; Null; Str "relative"]
    = "w-full relative"
  /\ cn ([Str "a"] ++ Null :: [Str "b"]) = cn ([Str "a"] ++ [Str "b"])
  /\ cn [Undefined; Null; Bool false; Str EmptyString] = EmptyString.
Proof.
  split; [|split].
  - rewrite (proj1 (cn_joins_truthy_entries _)). reflexivity.
  - apply (proj1 (proj2 (cn_joins_truthy_entries [])) [Str "a"] [Str "b"] Null).
    simpl. auto.
  - apply (proj2 (proj2 (cn_joins_truthy_entries
                            [Undefined; Null; Bool false; Str EmptyString]))).
    reflexivity.
Defined.

End CnFacts.

(** ** The deployment base path *)

Module ViteConfigFacts.
Import Js JsFacts ViteConfig.

Lemma ensure_trailing_slash_ends (b : string) :
  endsWith (ensure_trailing_slash b) "/" = true.
Proof.
  unfold ensure_trailing_slash.
  destruct (String.eqb_spec b "/") as [->|Hne]; [reflexivity|].
  destruct (endsWith b "/") eqn:Hends; simpl; [exact Hends|].
  apply endsWith_append.
Qed.

Lemma ensure_trailing_slash_fixed (b : string) :
  endsWith b "/" = true -> ensure_trailing_slash b = b.
Proof.
  intros Hends. unfold ensure_trailing_slash. rewrite Hends.
  now rewrite andb_false_r.
Qed.

Lemma ensure_trailing_slash_cases (b : string) :
  ensure_trailing_slash b = if endsWith b "/" then b else b +:+ "/".
Proof.
  unfold ensure_trailing_slash.
  destruct (String.eqb_spec b "/") as [->|Hne]; [reflexivity|].
  now destruct (endsWith b "/").
Qed.

(** [split] cuts at the first separator. *)
Lemma split_first (owner tail : string) :
  no_slash owner = true ->
  split "/"%char (owner +:+ String "/"%char tail)
  = owner :: split "/"%char tail.
Proof.
  induction owner as [|c owner IH]; intros Hno; [reflexivity|].
  rewrite append_cons. simpl in Hno. apply andb_prop in Hno as [Hc Hrest].
  simpl. destruct (Ascii.eqb c "/"%char); [discriminate|].
  now rewrite (IH Hrest).
Qed.

(** The first piece of [split] ends at the first separator or at the end
    of the string. *)
Lemma split_head (piece rest : string) :
  no_slash piece = true -> piece_end rest = true ->
  head (split "/"%char (piece +:+ rest)) = Some piece.
Proof.
  induction piece as [|c piece IH]; intros Hno Hend.
  - change (EmptyString +:+ rest) with rest. destruct rest as [|c rest]; [reflexivity|].
    simpl in Hend. simpl. now rewrite Hend.
  - rewrite append_cons. simpl in Hno. apply andb_prop in Hno as [Hc Hrest].
    specialize (IH Hrest Hend). simpl.
    destruct (Ascii.eqb c "/"%char); [discriminate|].
    destruct (split "/"%char (piece +:+ rest)) as [|p ps]; [discriminate|].
    simpl in IH. injection IH as ->. reflexivity.
Qed.

Lemma repoName_second_piece (owner piece rest : string) :
  no_slash owner = true -> no_slash piece = true -> piece_end rest = true ->
  repoName (owner +:+ "/" +:+ piece +:+ rest) = Some piece.
Proof.
  intros Ho Hp Hr. unfold repoName.
  change ("/" +:+ piece +:+ rest) with (String "/"%char (piece +:+ rest)).
  rewrite (split_first _ _ Ho).
  pose proof (split_head piece rest Hp Hr) as Hhead.
  destruct (split "/"%char (piece +:+ rest)) as [|p ps]; [discriminate|].
  exact Hhead.
Qed.

(** C8, as the claim states it, fails when [GITHUB_REPOSITORY] has a second
    ["/"]: the claim takes everything after the first ["/"], the
    configuration takes [split('/')[1]], the piece that ends at the second
    ["/"]. *)
Lemma base_is_not_the_claimed_base :
  let e := {| VITE_BASE_PATH := None;
              GITHUB_REPOSITORY := Some "owner/site/docs" |} in
  base (defineConfig "production" e) = "/site/"
  /\ claimed_base e = "/site/docs/"
  /\ base (defineConfig "production" e) <> claimed_base e.
Proof. repeat split. discriminate. Qed.

(** An empty [VITE_BASE_PATH] is falsy and counts as not set: the
    repository decides. *)
Example empty_base_path_is_ignored :
  base (defineConfig "production"
          {| VITE_BASE_PATH := Some EmptyString;
             GITHUB_REPOSITORY := Some "owner/site" |}) = "/site/".
Proof. reflexivity. Qed.

(** A repository value without ["/"] has no second piece, and the template
    literal prints [undefined]. *)
Example repository_without_slash :
  base (defineConfig "production"
          {| VITE_BASE_PATH := None;
             GITHUB_REPOSITORY := Some "site" |}) = "/undefined/".
Proof. reflexivity. Qed.

(** C8 (amended).  For every mode and every combination of
    [VITE_BASE_PATH] and [GITHUB_REPOSITORY], the base path ends with ["/"].
    It is [VITE_BASE_PATH], with a ["/"] appended if missing, when that
    variable is set and not empty.  Otherwise, when [GITHUB_REPOSITORY] is
    [owner/piece] or [owner/piece/...], it is ["/piece/"]: the piece
    between the first ["/"] and the second one (or the end).  When neither
    variable is set, or both are empty, it is ["/"]. *)
Theorem base_path_cases (mode : string) (e : env) :
  endsWith (base (defineConfig mode e)) "/" = true
  /\ (forall v,
         VITE_BASE_PATH e = Some v -> v <> EmptyString ->
         base (defineConfig mode e)
         = if endsWith v "/" then v else v +:+ "/")
  /\ (forall owner piece rest,
         truthy (VITE_BASE_PATH e) = false ->
         GITHUB_REPOSITORY e = Some (owner +:+ "/" +:+ piece +:+ rest) ->
         no_slash owner = true -> no_slash piece = true ->
         piece_end rest = true ->
         base (defineConfig mode e) = "/" +:+ piece +:+ "/")
  /\ (truthy (VITE_BASE_PATH e) = false ->
      truthy (GITHUB_REPOSITORY e) = false ->
      base (defineConfig mode e) = "/").
Proof.
  destruct e as [vite repository]. cbn [base defineConfig].
  split; [apply ensure_trailing_slash_ends|].
  split; [|split].
  - intros v Hv Hne. cbn in Hv. subst vite.
    unfold detected_base. cbn [VITE_BASE_PATH GITHUB_REPOSITORY].
    destruct v as [|c v]; [congruence|]. cbn [truthy negb].
    apply ensure_trailing_slash_cases.
  - intros owner piece rest Hvite Hrepo Ho Hp Hr. cbn in Hvite, Hrepo.
    subst repository.
    assert (Hfall : detected_base
                      {| VITE_BASE_PATH := vite;
                         GITHUB_REPOSITORY :=
                           Some (owner +:+ "/" +:+ piece +:+ rest) |}
                    = "/" +:+ piece +:+ "/").
    { unfold detected_base. cbn [VITE_BASE_PATH GITHUB_REPOSITORY].
      rewrite (repoName_second_piece _ _ _ Ho Hp Hr). cbn [to_string].
      assert (Htruthy : truthy (Some (owner +:+ "/" +:+ piece +:+ rest))
                        = true).
      { destruct owner; reflexivity. }
      rewrite Htruthy.
      destruct vite as [v|]; [|reflexivity]. now rewrite Hvite. }
    rewrite Hfall. apply ensure_trailing_slash_fixed.
    rewrite <- append_assoc. apply endsWith_append.
  - intros Hvite Hrepo. cbn in Hvite, Hrepo.
    unfold detected_base. cbn [VITE_BASE_PATH GITHUB_REPOSITORY].
    assert (Hfall : match repository with
                    | Some r =>
                        if truthy (Some r)
                        then "/" +:+ to_string (repoName r) +:+ "/"
                        else "/"
                    | None => "/"
                    end = "/").
    { destruct repository as [r|]; [|reflexivity]. now rewrite Hrepo. }
    rewrite Hfall. destruct vite as [v|]; [|reflexivity].
    rewrite Hvite. reflexivity.
Qed.

Lemma base_path_cases_witness :
  endsWith (base (defineConfig "development"
              {| VITE_BASE_PATH := Some "/course";
                 GITHUB_REPOSITORY := None |})) "/" = true
  /\ base (defineConfig "development"
             {| VITE_BASE_PATH := Some "/course";
                GITHUB_REPOSITORY := None |}) = "/course/"
  /\ base (defineConfig "production"
             {| VITE_BASE_PATH := None;
                GITHUB_REPOSITORY := Some "niloomon/CSE140-Website" |})
     = "/CSE140-Website/"
  /\ base (defineConfig "production"
             {| VITE_BASE_PATH := Some EmptyString; GITHUB_REPOSITORY := None |})
     = "/".
Proof.
  split; [|split; [|split]].
  - apply (proj1 (base_path_cases "development"
                    {| VITE_BASE_PATH := Some "/course";
                       GITHUB_REPOSITORY := None |})).
  - apply (proj1 (proj2 (base_path_cases "development"
                           {| VITE_BASE_PATH := Some "/course";
                              GITHUB_REPOSITORY := None |})) "/course").
    + reflexivity.
    + discriminate.
  - apply (proj1 (proj2 (proj2 (base_path_cases "production"
                           {| VITE_BASE_PATH := None;
                              GITHUB_REPOSITORY :=
                                Some "niloomon/CSE140-Website" |})))
             "niloomon" "CSE140-Website" EmptyString);
      reflexivity.
  - apply (proj2 (proj2 (proj2 (base_path_cases "production"
                           {| VITE_BASE_PATH := Some EmptyString;
                              GITHUB_REPOSITORY := None |}))));
      reflexivity.
Defined.

End ViteConfigFacts.

(** ** [IframeSkeleton] *)

Module SkeletonFacts.
Import Jsx Skeleton.

(** C10.  For every combination of the optional props and every handler
    type, [IframeSkeleton] returns a tree whose root has the supplied height
    (['1200px'] when omitted) as its [height] style, whose only text is the
    supplied loading text (['Loading calendar...'] when omitted) and whose
    root class is ["w-full "] followed by the supplied class.  The props
    reach nothing else: the tree has the same elements in the same places
    whatever the props are, and no element of it carries an event
    handler. *)
Theorem IframeSkeleton_presentation (H : Type) (p : props) :
  style_of "height" (IframeSkeleton (H := H) p)
  = Some (match height p with Some h => h | None => "1200px" end)
  /\ texts (IframeSkeleton (H := H) p)
     = [match text p with Some t => t | None => "Loading calendar..." end]
  /\ attr "className" (IframeSkeleton (H := H) p)
     = Some ("w-full "
             +:+ match className p with Some c => c | None => EmptyString end)
  /\ shape_of (IframeSkeleton (H := H) p)
     = shape_of (IframeSkeleton (H := H)
                   {| height := None; className := None; text := None |})
  /\ Forall (fun e => handler_names e = []) (elements (IframeSkeleton (H := H) p)).
Proof.
  destruct p as [h c t].
  split; [|split; [|split; [|split]]].
  - destruct h; reflexivity.
  - destruct t; reflexivity.
  - destruct c; reflexivity.
  - reflexivity.
  - cbn. repeat constructor.
Qed.

(** The defaults, on the component called without props. *)
Example IframeSkeleton_defaults :
  let tree : node unit :=
    IframeSkeleton {| height := None; className := None; text := None |} in
  style_of "height" tree = Some "1200px"
  /\ texts tree = ["Loading calendar..."].
Proof. split; reflexivity. Qed.

End SkeletonFacts.

(** ** [GoogleDocEmbed] *)

Module GoogleDocEmbedFacts.
Import Jsx GoogleDocEmbed.

(** *** What the render output registers *)

Lemma surface_of_render (h : hooks) :
  exists frame,
    by_tag "iframe" (render h) = [frame]
    /\ content_surface (render h) = Some frame
    /\ tag_of frame = Some "iframe"
    /\ attr "loading" frame = Some "eager"
    /\ attr "src" frame = Some GOOGLE_DOC_URL
    /\ style_of "opacity" frame = Some (if isLoading h then "0" else "1")
    /\ style_of "transition" frame = Some "opacity 0.3s ease-in-out"
    /\ handler_names frame = ["onLoad"].
Proof.
  destruct h as [[|] r]; eexists; repeat split; reflexivity.
Qed.

Lemma listener_cases (name : string) (h : hooks) :
  listener name h
  = if String.eqb "onLoad" name then Some handleIframeLoad else None.
Proof. destruct h as [[|] r]; reflexivity. Qed.

Lemma listener_onLoad (h : hooks) :
  listener "onLoad" h = Some handleIframeLoad.
Proof. now rewrite listener_cases. Qed.

Lemma listener_other (name : string) (h : hooks) :
  name <> "onLoad" -> listener name h = None.
Proof.
  intros Hne. rewrite listener_cases.
  destruct (String.eqb_spec "onLoad" name) as [Heq|_]; [|reflexivity].
  now subst name.
Qed.

(** *** Delivery *)

Lemma deliver_load (failed : bool) (i : instance) :
  stage i = Displayed ->
  deliver (load_signal failed) i
  = {| stage := Displayed;
       state := {| isLoading := false; iframeRef := iframeRef (state i) |} |}.
Proof.
  intros Hstage. unfold deliver. rewrite Hstage. cbn [prop load_signal].
  now rewrite listener_onLoad.
Qed.

Lemma deliver_unheard (s : signal) (i : instance) :
  prop s <> "onLoad" -> deliver s i = i.
Proof.
  intros Hne. unfold deliver. rewrite (listener_other _ _ Hne).
  now destruct (stage i).
Qed.

Lemma deliver_torn_down (s : signal) (i : instance) :
  stage i = TornDown -> deliver s i = i.
Proof. intros Hstage. unfold deliver. now rewrite Hstage. Qed.

(** Nothing reaches an instance once it is torn down. *)
Lemma run_torn_down (evs : list event) (i : instance) :
  run (teardown i) evs = teardown i.
Proof.
  induction evs as [|ev evs IH]; [reflexivity|].
  cbn [run foldl]. fold (run (step (teardown i) ev) evs).
  destruct ev as [s|]; cbn [step].
  - rewrite deliver_torn_down by reflexivity. exact IH.
  - exact IH.
Qed.

(** No event brings a loaded instance back to loading. *)
Lemma step_keeps_loaded (i : instance) (ev : event) :
  isLoading (state i) = false -> isLoading (state (step i ev)) = false.
Proof.
  intros Hloaded. destruct ev as [s|]; [|exact Hloaded].
  cbn [step]. unfold deliver. rewrite listener_cases.
  destruct (stage i); [|exact Hloaded].
  destruct (String.eqb "onLoad" (prop s)); [reflexivity | exact Hloaded].
Qed.

Lemma run_keeps_loaded (evs : list event) :
  forall i, isLoading (state i) = false ->
            isLoading (state (run i evs)) = false.
Proof.
  induction evs as [|ev evs IH]; intros i Hloaded; [exact Hloaded|].
  cbn [run foldl]. apply IH. now apply step_keeps_loaded.
Qed.

(** *** The two render outputs *)

Lemma render_loading (h : hooks) :
  isLoading h = true ->
  placeholder_mounted (render h) = true
  /\ texts (render h) = ["Loading Syllabus..."].
Proof. destruct h as [[|] r]; [split; reflexivity | discriminate]. Qed.

Lemma render_loaded (h : hooks) :
  isLoading h = false ->
  placeholder_mounted (render h) = false
  /\ by_class placeholder_class (render h) = []
  /\ texts (render h) = []
  /\ map tag_of (elements (render h))
     = [Some "div"; Some "div"; Some "div"; Some "iframe"].
Proof. destruct h as [[|] r]; [discriminate | repeat split; reflexivity]. Qed.

(** C1.  For every displayed instance, once the load-completion signal has
    been delivered, whatever events follow (further completion signals,
    other signals, the teardown), [isLoading] is false, the placeholder is
    not in the render output and none of its text is shown; delivering the
    signal a second time changes nothing. *)
Theorem loaded_is_one_way (i : instance) (failed : bool) (evs : list event) :
  stage i = Displayed ->
  isLoading (state (run (step i (Signal (load_signal failed))) evs)) = false
  /\ placeholder_mounted
       (render (state (run (step i (Signal (load_signal failed))) evs)))
     = false
  /\ texts (render (state (run (step i (Signal (load_signal failed))) evs)))
     = []
  /\ step (step i (Signal (load_signal failed))) (Signal (load_signal failed))
     = step i (Signal (load_signal failed)).
Proof.
  intros Hstage.
  assert (Hloaded :
            isLoading (state (run (step i (Signal (load_signal failed))) evs))
            = false).
  { apply run_keeps_loaded. cbn [step]. now rewrite deliver_load. }
  destruct (render_loaded _ Hloaded) as (Hgone & _ & Htexts & _).
  repeat split; try assumption.
  cbn [step]. rewrite (deliver_load failed i Hstage).
  now rewrite deliver_load.
Qed.

Lemma loaded_is_one_way_witness :
  isLoading
    (state (run (step mount (Signal (load_signal false)))
              [ Signal (load_signal true);
                Signal {| prop := "onError"; underlying_error := true |};
                Teardown;
                Signal (load_signal false) ])) = false.
Proof.
  apply (proj1 (loaded_is_one_way mount false
                  [ Signal (load_signal true);
                    Signal {| prop := "onError"; underlying_error := true |};
                    Teardown;
                    Signal (load_signal false) ] eq_refl)).
Defined.

(** C2.  Right after the first render the instance is displayed, the
    placeholder is mounted and shows its text, and the iframe is in the
    output with opacity 0; after the completion signal the placeholder is
    gone from the output and the iframe has opacity 1.  The component takes
    no props: its resource is the constant [GOOGLE_DOC_URL]. *)
Theorem placeholder_then_content (failed : bool) :
  view mount = Some (render (state mount))
  /\ placeholder_mounted (render (state mount)) = true
  /\ texts (render (state mount)) = ["Loading Syllabus..."]
  /\ (exists frame,
         content_surface (render (state mount)) = Some frame
         /\ attr "src" frame = Some GOOGLE_DOC_URL
         /\ style_of "opacity" frame = Some "0")
  /\ placeholder_mounted
       (render (state (step mount (Signal (load_signal failed))))) = false
  /\ texts (render (state (step mount (Signal (load_signal failed))))) = []
  /\ (exists frame,
         content_surface
           (render (state (step mount (Signal (load_signal failed)))))
         = Some frame
         /\ attr "src" frame = Some GOOGLE_DOC_URL
         /\ style_of "opacity" frame = Some "1").
Proof.
  cbn [step]. rewrite (deliver_load failed mount eq_refl). cbn [state].
  split; [reflexivity|].
  destruct (render_loading (state mount) eq_refl) as [Hshown Htext].
  split; [exact Hshown|]. split; [exact Htext|].
  split.
  { destruct (surface_of_render (state mount))
      as (frame & _ & Hs & _ & _ & Hsrc & Hop & _).
    exists frame. repeat split; assumption. }
  set (after := {| isLoading := false; iframeRef := iframeRef (state mount) |}).
  destruct (render_loaded after eq_refl) as (Hgone & _ & Htexts & _).
  split; [exact Hgone|]. split; [exact Htexts|].
  destruct (surface_of_render after) as (frame & _ & Hs & _ & _ & Hsrc & Hop & _).
  exists frame. repeat split; assumption.
Qed.

(** C3, as the claim states it, fails: after the transition the placeholder
    element is not in the render output any more.  [isLoading && (...)]
    leaves [false] in its place, which React does not render. *)
Lemma placeholder_does_not_stay_mounted :
  ~ placeholder_mounted
      (render (state (step mount (Signal (load_signal false))))) = true.
Proof.
  cbn [step]. rewrite (deliver_load false mount eq_refl). discriminate.
Qed.

(** C3 (amended).  When the transition fires on a displayed, loading
    instance, the placeholder, which was in the render output, is removed
    from it: no element with its class is left, no text is shown, and the
    output consists of the three wrapping [div]s and the iframe.  The
    iframe is revealed by its opacity going from 0 to 1 under the style
    [transition: opacity 0.3s ease-in-out], which it carries before and
    after the transition. *)
Theorem placeholder_unmounted_and_content_faded_in
        (i : instance) (failed : bool) :
  stage i = Displayed ->
  isLoading (state i) = true ->
  by_class placeholder_class
    (render (state (step i (Signal (load_signal failed))))) = []
  /\ texts (render (state (step i (Signal (load_signal failed))))) = []
  /\ map tag_of
       (elements (render (state (step i (Signal (load_signal failed))))))
     = [Some "div"; Some "div"; Some "div"; Some "iframe"]
  /\ (exists frame,
         content_surface
           (render (state (step i (Signal (load_signal failed)))))
         = Some frame
         /\ style_of "opacity" frame = Some "1"
         /\ style_of "transition" frame = Some "opacity 0.3s ease-in-out")
  /\ (exists frame,
         content_surface (render (state i)) = Some frame
         /\ style_of "opacity" frame = Some "0"
         /\ style_of "transition" frame = Some "opacity 0.3s ease-in-out")
  /\ placeholder_mounted (render (state i)) = true
  /\ by_class placeholder_class (render (state i)) <> [].
Proof.
  intros Hstage Hloading.
  cbn [step]. rewrite (deliver_load failed i Hstage). cbn [state].
  set (after := {| isLoading := false; iframeRef := iframeRef (state i) |}).
  destruct (render_loaded after eq_refl) as (_ & Hclass & Htexts & Htags).
  split; [exact Hclass|]. split; [exact Htexts|]. split; [exact Htags|].
  split; [|split; [|split]].
  - destruct (surface_of_render after)
      as (frame & _ & Hs & _ & _ & _ & Hop & Htr & _).
    exists frame. repeat split; assumption.
  - destruct (surface_of_render (state i))
      as (frame & _ & Hs & _ & _ & _ & Hop & Htr & _).
    rewrite Hloading in Hop.
    exists frame. repeat split; assumption.
  - apply (render_loading _ Hloading).
  - pose proof (proj1 (render_loading _ Hloading)) as Hmounted.
    unfold placeholder_mounted in Hmounted.
    destruct (by_class placeholder_class (render (state i)));
      [discriminate Hmounted | discriminate].
Qed.

Lemma placeholder_unmounted_and_content_faded_in_witness :
  by_class placeholder_class
    (render (state (step mount (Signal (load_signal false))))) = []
  /\ placeholder_mounted (render (state mount)) = true.
Proof.
  pose proof (placeholder_unmounted_and_content_faded_in
                mount false eq_refl eq_refl) as Hfade.
  split; [apply Hfade | apply (proj1 (proj2 (proj2 (proj2 (proj2 (proj2 Hfade))))))].
Defined.

(** C4.  In every state of the view, loading or loaded, the render output
    has exactly one iframe; it asks for eager loading and is bound to the
    document URL.  The placeholder is mounted exactly while the view is
    loading, so in the loading state both are in the output: the iframe
    is mounted by the first render, beside the placeholder, and stays. *)
Theorem content_surface_always_mounted (h : hooks) :
  exists frame,
    by_tag "iframe" (render h) = [frame]
    /\ In frame (elements (render h))
    /\ attr "loading" frame = Some "eager"
    /\ attr "src" frame = Some GOOGLE_DOC_URL
    /\ placeholder_mounted (render h) = isLoading h.
Proof.
  destruct (surface_of_render h)
    as (frame & Htag & _ & _ & Heager & Hsrc & _).
  exists frame. split; [exact Htag|]. split.
  - assert (Hin : In frame (by_tag "iframe" (render h))).
    { rewrite Htag. now left. }
    unfold by_tag in Hin. apply List.filter_In in Hin. tauto.
  - repeat split; try assumption. destruct h as [[|] r]; reflexivity.
Qed.


(** C7.  The view consumes one signal only.  A completion whose document
    failed is handled exactly as a successful one, and on a displayed
    instance it fires the transition: [isLoading] becomes false and the
    placeholder leaves the output.  A signal delivered to any other prop
    (an error, a timeout) changes nothing; as long as no completion signal
    arrives the instance is as it was mounted, with the placeholder shown.
    In every state the only handler in the output is the iframe's
    [onLoad], the only text is the loading text, and the iframe keeps the
    same [src]: there is nothing to retry with and no error to show. *)
Theorem no_error_or_timeout_path :
  (forall i, step i (Signal (load_signal true))
             = step i (Signal (load_signal false)))
  /\ (forall i,
         stage i = Displayed ->
         isLoading (state (step i (Signal (load_signal true)))) = false
         /\ placeholder_mounted
              (render (state (step i (Signal (load_signal true))))) = false
         /\ (exists frame,
                content_surface
                  (render (state (step i (Signal (load_signal true)))))
                = Some frame
                /\ style_of "opacity" frame = Some "1"))
  /\ (forall i s, prop s <> "onLoad" -> step i (Signal s) = i)
  /\ (forall signals,
         Forall (fun s => prop s <> "onLoad") signals ->
         run mount (map Signal signals) = mount
         /\ placeholder_mounted
              (render (state (run mount (map Signal signals)))) = true)
  /\ (forall h,
         concat (map handler_names (elements (render h))) = ["onLoad"]
         /\ texts (render h)
            = (if isLoading h then ["Loading Syllabus..."] else [])
         /\ (exists frame,
                content_surface (render h) = Some frame
                /\ attr "src" frame = Some GOOGLE_DOC_URL)).
Proof.
  split; [|split; [|split; [|split]]].
  - intros i. cbn [step]. destruct (stage i) eqn:Hstage.
    + now rewrite !deliver_load.
    + now rewrite !deliver_torn_down.
  - intros i Hstage. cbn [step]. rewrite (deliver_load true i Hstage).
    cbn [state].
    set (after := {| isLoading := false; iframeRef := iframeRef (state i) |}).
    split; [reflexivity|].
    split; [apply (render_loaded after eq_refl)|].
    destruct (surface_of_render after)
      as (frame & _ & Hs & _ & _ & _ & Hop & _).
    exists frame. split; assumption.
  - intros i s Hne. cbn [step]. now apply deliver_unheard.
  - intros signals Hnone.
    assert (Hsame : run mount (map Signal signals) = mount).
    { generalize mount. induction Hnone as [|s rest Hs _ IH]; intros i.
      - reflexivity.
      - cbn [map run foldl step]. rewrite (deliver_unheard _ _ Hs).
        apply IH. }
    split; [exact Hsame|]. now rewrite Hsame.
  - intros h. split; [|split].
    + destruct h as [[|] r]; reflexivity.
    + destruct h as [[|] r]; reflexivity.
    + destruct (surface_of_render h) as (frame & _ & Hs & _ & _ & Hsrc & _).
      exists frame. split; assumption.
Qed.

Lemma no_error_or_timeout_path_witness :
  step mount (Signal {| prop := "onError"; underlying_error := true |})
  = mount
  /\ run mount (map Signal [ {| prop := "onError"; underlying_error := true |};
                            {| prop := "onAbort"; underlying_error := false |} ])
     = mount
  /\ isLoading (state (step mount (Signal (load_signal true)))) = false.
Proof.
  split; [|split].
  - apply (proj1 (proj2 (proj2 no_error_or_timeout_path))). discriminate.
  - apply (proj1 (proj2 (proj2 (proj2 no_error_or_timeout_path)))).
    repeat constructor; discriminate.
  - apply (proj1 (proj2 no_error_or_timeout_path) mount). reflexivity.
Defined.

End GoogleDocEmbedFacts.

(** ** The preload coordinator *)

Module PreloaderFacts.
Import Preloader.

Lemma process_start_consistent : consistent process_start.
Proof. intros i. reflexivity. Qed.

Lemma ensure_one_registry (c : coordinator) (d : descriptor) :
  registry (ensure_one c d) = {[ id d ]} ∪ registry c.
Proof.
  unfold ensure_one. destruct (decide (id d ∈ registry c)) as [Hin|Hout].
  - set_solver.
  - reflexivity.
Qed.

Lemma ensure_one_consistent (c : coordinator) (d : descriptor) :
  consistent c -> consistent (ensure_one c d).
Proof.
  intros Hc i. unfold ensure_one.
  destruct (decide (id d ∈ registry c)) as [Hin|Hout]; [apply Hc|].
  unfold instantiated. cbn [instances registry].
  rewrite filter_cons. specialize (Hc i). unfold instantiated in Hc.
  destruct (decide (id d = i)) as [Heq|Hne].
  - subst i. cbn [length]. rewrite Hc.
    destruct (decide (id d ∈ registry c)) as [|_]; [contradiction|].
    destruct (decide (id d ∈ {[id d]} ∪ registry c)) as [_|Hno];
      [reflexivity | set_solver].
  - rewrite Hc.
    destruct (decide (i ∈ registry c)) as [Hi|Hi];
      destruct (decide (i ∈ {[id d]} ∪ registry c)) as [Hi'|Hi'];
      try reflexivity; set_solver.
Qed.

Lemma EnsurePreloaded_registry (descriptors : list descriptor) :
  forall c,
    registry (EnsurePreloaded descriptors c)
    = list_to_set (id <$> descriptors) ∪ registry c.
Proof.
  induction descriptors as [|d rest IH]; intros c.
  - cbn. set_solver.
  - cbn [EnsurePreloaded foldl]. fold (EnsurePreloaded rest (ensure_one c d)).
    rewrite IH, ensure_one_registry. cbn. set_solver.
Qed.

Lemma EnsurePreloaded_consistent (descriptors : list descriptor) :
  forall c, consistent c -> consistent (EnsurePreloaded descriptors c).
Proof.
  induction descriptors as [|d rest IH]; intros c Hc; [exact Hc|].
  cbn [EnsurePreloaded foldl]. fold (EnsurePreloaded rest (ensure_one c d)).
  apply IH. now apply ensure_one_consistent.
Qed.

(** The calls of a process, from any coordinator. *)
Lemma calls_from (lists : list (list descriptor)) :
  forall c,
    consistent c ->
    let c' := foldl (fun c descriptors => EnsurePreloaded descriptors c)
                    c lists in
    consistent c' /\ registry c' = ids_of lists ∪ registry c.
Proof.
  induction lists as [|descriptors rest IH]; intros c Hc.
  - cbn. split; [exact Hc|]. unfold ids_of. cbn. set_solver.
  - cbn [foldl].
    destruct (IH (EnsurePreloaded descriptors c)
                 (EnsurePreloaded_consistent _ _ Hc)) as [Hcons Hreg].
    split; [exact Hcons|].
    cbn zeta in Hreg. rewrite Hreg, EnsurePreloaded_registry.
    unfold ids_of. cbn [concat]. rewrite fmap_app, list_to_set_app_L.
    set_solver.
Qed.

(** C5.  For any sequence of [EnsurePreloaded] calls from the start of the
    process, the number of hidden preload instances created for an id is 1
    if the id occurs in one of the lists and 0 if it occurs in none,
    however many lists it occurs in and however often in each. *)
Theorem one_preload_instance_per_id
        (lists : list (list descriptor)) (i : string) :
  instantiated i (calls lists)
  = if decide (i ∈ ids_of lists) then 1 else 0.
Proof.
  destruct (calls_from lists process_start process_start_consistent)
    as [Hcons Hreg].
  cbn zeta in Hcons, Hreg. fold (calls lists) in Hcons, Hreg.
  rewrite (Hcons i), Hreg. cbn [registry process_start].
  destruct (decide (i ∈ ids_of lists ∪ ∅)) as [Hi|Hi];
    destruct (decide (i ∈ ids_of lists)) as [Hi'|Hi'];
    try reflexivity; set_solver.
Qed.

(** The spec's scenario: [a, b] and then [b, c]. *)
Example overlapping_calls :
  let d name := {| id := name; sourceUrl := "https://example/" +:+ name;
                   kind := Document |} in
  let c := calls [[d "a"; d "b"]; [d "b"; d "c"]] in
  map id (instances c) = ["c"; "b"; "a"].
Proof. vm_compute. reflexivity. Qed.

(** Mounting [Home] again creates nothing. *)
Lemma Home_remount (known : list descriptor) (c : coordinator) :
  instances (fst (Home known (fst (Home known c))))
  = instances (fst (Home known c)).
Proof.
  cbn [Home fst].
  assert (Hfixed : forall ds c',
             (forall d, d ∈ ds -> id d ∈ registry c') ->
             EnsurePreloaded ds c' = c').
  { induction ds as [|d ds IH]; intros c' Hall; [reflexivity|].
    cbn [EnsurePreloaded foldl]. unfold ensure_one at 2.
    destruct (decide (id d ∈ registry c')) as [_|Hno].
    - apply IH. intros d' Hd'. apply Hall. now right.
    - exfalso. apply Hno, Hall. now left. }
  rewrite Hfixed; [reflexivity|].
  intros d Hd. rewrite EnsurePreloaded_registry.
  apply elem_of_union_l, elem_of_list_to_set, list_elem_of_fmap.
  now exists d.
Qed.

End PreloaderFacts.

(** ** More on [cn]: empty results and composition *)

Module CnComposition.
Import Cn JsFacts CnFacts.

Lemma truthy_text_nonempty (v : class_value) :
  Boolean v = true -> element_text v <> EmptyString.
Proof. destruct v as [[|c s]| | |[|]]; simpl; intros Hv; congruence. Qed.

Lemma append_nonempty_l (a b : string) :
  a <> EmptyString -> a +:+ b <> EmptyString.
Proof. destruct a as [|c a]; [congruence|]. rewrite append_cons. discriminate. Qed.

Lemma truthy_texts_nonempty (classes : list class_value) :
  Forall (fun t => t <> EmptyString) (truthy_texts classes).
Proof.
  induction classes as [|v rest IH]; simpl; [constructor|].
  destruct (Boolean v) eqn:Hv; [|exact IH].
  constructor; [now apply truthy_text_nonempty | exact IH].
Qed.

Lemma truthy_texts_app (xs ys : list class_value) :
  truthy_texts (xs ++ ys) = (truthy_texts xs ++ truthy_texts ys)%list.
Proof.
  induction xs as [|v rest IH]; simpl; [reflexivity|].
  destruct (Boolean v); simpl; now rewrite IH.
Qed.

Lemma truthy_texts_nil (classes : list class_value) :
  truthy_texts classes = [] <->
  forallb (fun v => negb (Boolean v)) classes = true.
Proof.
  induction classes as [|v rest IH]; simpl; [tauto|].
  destruct (Boolean v); simpl; [split; discriminate | exact IH].
Qed.

Lemma cn_texts (classes : list class_value) :
  cn classes = space_separated (truthy_texts classes).
Proof.
  unfold cn. rewrite join_space_separated. now rewrite truthy_texts_filter.
Qed.

Lemma space_separated_cons (t : string) (more : list string) :
  more <> [] ->
  space_separated (t :: more) = t +:+ " " +:+ space_separated more.
Proof. destruct more; [congruence | reflexivity]. Qed.

Lemma space_separated_empty (texts : list string) :
  Forall (fun t => t <> EmptyString) texts ->
  space_separated texts = EmptyString -> texts = [].
Proof.
  intros Hall Hempty. destruct Hall as [|t more Ht Hmore]; [reflexivity|].
  exfalso. destruct more as [|t' more'].
  - simpl in Hempty. contradiction.
  - rewrite space_separated_cons in Hempty by discriminate.
    exact (append_nonempty_l t _ Ht Hempty).
Qed.

Lemma space_separated_app (a b : list string) :
  a <> [] -> b <> [] ->
  space_separated (a ++ b)
  = space_separated a +:+ " " +:+ space_separated b.
Proof.
  induction a as [|t more IH]; intros Ha Hb; [congruence|].
  destruct more as [|t' more'].
  - simpl app. now rewrite space_separated_cons.
  - change ((t :: t' :: more') ++ b)%list with (t :: ((t' :: more') ++ b))%list.
    rewrite space_separated_cons by discriminate.
    rewrite IH by (assumption || discriminate).
    rewrite (space_separated_cons t (t' :: more')) by discriminate.
    now rewrite !append_assoc.
Qed.

Lemma is_empty_text (classes : list class_value) :
  String.eqb (cn classes) EmptyString = true <-> truthy_texts classes = [].
Proof.
  rewrite String.eqb_eq, cn_texts. split.
  - apply space_separated_empty, truthy_texts_nonempty.
  - now intros ->.
Qed.

(** X1.  [cn] returns the empty string only when no entry is truthy: the
    result is empty if and only if every entry is [undefined], [null],
    [false] or the empty string. *)
Theorem cn_empty_iff_all_falsy (classes : list class_value) :
  cn classes = EmptyString <->
  forallb (fun v => negb (Boolean v)) classes = true.
Proof.
  rewrite <- truthy_texts_nil, <- is_empty_text. symmetry.
  apply String.eqb_eq.
Qed.

Lemma cn_app_cases (xs ys : list class_value) :
  cn (xs ++ ys)
  = if String.eqb (cn xs) EmptyString then cn ys
    else if String.eqb (cn ys) EmptyString then cn xs
         else cn xs +:+ " " +:+ cn ys.
Proof.
  destruct (String.eqb (cn xs) EmptyString) eqn:Hx.
  - apply is_empty_text in Hx. rewrite !cn_texts, truthy_texts_app, Hx.
    reflexivity.
  - destruct (String.eqb (cn ys) EmptyString) eqn:Hy.
    + apply is_empty_text in Hy. rewrite !cn_texts, truthy_texts_app, Hy.
      now rewrite app_nil_r.
    + rewrite !cn_texts, truthy_texts_app. apply space_separated_app.
      * intros Hnil. apply is_empty_text in Hnil. congruence.
      * intros Hnil. apply is_empty_text in Hnil. congruence.
Qed.

(** X2.  [cn] of two argument lists put one after the other is made of the
    results for each: the other result when one of them is empty, and the
    two results with one space between them otherwise. *)
Theorem cn_of_concatenation (xs ys : list class_value) :
  (cn xs = EmptyString -> cn (xs ++ ys) = cn ys)
  /\ (cn ys = EmptyString -> cn (xs ++ ys) = cn xs)
  /\ (cn xs <> EmptyString -> cn ys <> EmptyString ->
      cn (xs ++ ys) = cn xs +:+ " " +:+ cn ys).
Proof.
  pose proof (cn_app_cases xs ys) as Happ.
  destruct (String.eqb_spec (cn xs) EmptyString) as [Hx|Hx];
    destruct (String.eqb_spec (cn ys) EmptyString) as [Hy|Hy].
  - repeat split; intros; congruence.
  - repeat split; intros; congruence.
  - repeat split; intros; congruence.
  - repeat split; intros; congruence.
Qed.

Lemma cn_of_concatenation_witness :
  cn ([Str "flex"; Null] ++ [Bool false; Str "h-full"]) = "flex h-full"
  /\ cn ([Undefined] ++ [Str "h-full"]) = "h-full".
Proof.
  split.
  - apply (proj2 (proj2 (cn_of_concatenation
                           [Str "flex"; Null] [Bool false; Str "h-full"])));
      discriminate.
  - apply (proj1 (cn_of_concatenation [Undefined] [Str "h-full"])).
    reflexivity.
Defined.

(** X3.  Class names can be built in steps: passing the results of two
    calls of [cn] to [cn] gives what one call on all the arguments gives,
    and [cn] applied to its own result returns it unchanged. *)
Theorem cn_of_cn (xs ys : list class_value) :
  cn [Str (cn xs); Str (cn ys)] = cn (xs ++ ys)
  /\ cn [Str (cn xs)] = cn xs.
Proof.
  split.
  - rewrite cn_app_cases, (cn_texts [_; _]).
    destruct (cn xs) as [|c s]; destruct (cn ys) as [|c' s']; reflexivity.
  - rewrite (cn_texts [_]). destruct (cn xs) as [|c s]; reflexivity.
Qed.

End CnComposition.

(** ** More on the base path: fixed point and the missing repository name *)

Module BasePathFacts.
Import Js JsFacts ViteConfig ViteConfigFacts.

Lemma ends_with_slash_truthy (b : string) :
  endsWith b "/" = true -> truthy (Some b) = true.
Proof. destruct b as [|c b]; [discriminate | reflexivity]. Qed.

(** A base that ends with ["/"], given as [VITE_BASE_PATH], is the result. *)
Lemma base_of_slashed_variable
      (mode : string) (b : string) (repository : option string) :
  endsWith b "/" = true ->
  base (defineConfig mode {| VITE_BASE_PATH := Some b;
                             GITHUB_REPOSITORY := repository |}) = b.
Proof.
  intros Hends. cbn [base defineConfig]. unfold detected_base.
  cbn [VITE_BASE_PATH GITHUB_REPOSITORY].
  rewrite (ends_with_slash_truthy _ Hends). cbn [negb].
  now apply ensure_trailing_slash_fixed.
Qed.

(** Without the separator there is one piece, the string itself. *)
Lemma split_without_slash (s : string) :
  no_slash s = true -> split "/"%char s = [s].
Proof.
  induction s as [|c s IH]; intros Hno; [reflexivity|].
  simpl in Hno. apply andb_prop in Hno as [Hc Hrest].
  simpl. destruct (Ascii.eqb c "/"%char); [discriminate|].
  now rewrite (IH Hrest).
Qed.

(** X4.  The computed base is a fixed point of the configuration: given
    back as [VITE_BASE_PATH], under any mode and any [GITHUB_REPOSITORY],
    it is returned unchanged. *)
Theorem base_is_a_fixed_point
        (mode mode' : string) (e : env) (repository : option string) :
  base (defineConfig mode'
          {| VITE_BASE_PATH := Some (base (defineConfig mode e));
             GITHUB_REPOSITORY := repository |})
  = base (defineConfig mode e).
Proof.
  apply base_of_slashed_variable. cbn [base defineConfig].
  apply ensure_trailing_slash_ends.
Qed.

(** X5.  When [VITE_BASE_PATH] is unset or empty and [GITHUB_REPOSITORY] is
    a non-empty value without any ["/"], [split('/')[1]] is [undefined] and
    the base is the text ["/undefined/"]. *)
Theorem repository_without_slash_gives_undefined
        (mode : string) (e : env) (repository : string) :
  truthy (VITE_BASE_PATH e) = false ->
  GITHUB_REPOSITORY e = Some repository ->
  repository <> EmptyString ->
  no_slash repository = true ->
  base (defineConfig mode e) = "/undefined/".
Proof.
  intros Hvite Hrepo Hne Hno. destruct e as [vite repo]. cbn in Hvite, Hrepo.
  subst repo. cbn [base defineConfig]. unfold detected_base, repoName.
  cbn [VITE_BASE_PATH GITHUB_REPOSITORY].
  rewrite (split_without_slash _ Hno). cbn [lookup list_lookup to_string].
  assert (Htruthy : truthy (Some repository) = true).
  { destruct repository; [congruence | reflexivity]. }
  rewrite Htruthy.
  destruct vite as [v|]; [rewrite Hvite|]; reflexivity.
Qed.

Lemma repository_without_slash_gives_undefined_witness :
  base (defineConfig "production"
          {| VITE_BASE_PATH := Some EmptyString;
             GITHUB_REPOSITORY := Some "CSE140-Website" |}) = "/undefined/".
Proof.
  apply (repository_without_slash_gives_undefined "production" _
           "CSE140-Website"); reflexivity || discriminate.
Defined.

End BasePathFacts.

(** ** The build script *)

Module BuildScriptFacts.
Import Js JsFacts ViteConfig ViteConfigFacts BasePathFacts BuildScript.

Lemma or_word_nonempty (word x : string) :
  word <> EmptyString -> or_word word x <> EmptyString.
Proof.
  intros Hword. unfold or_word. destruct x as [|c x]; simpl; [exact Hword|].
  discriminate.
Qed.

Lemma project_site_shape (name : string) :
  name <> EmptyString ->
  REPO_NAME (project_site name) <> EmptyString
  /\ BASE_PATH (project_site name)
     = "/" +:+ REPO_NAME (project_site name) +:+ "/".
Proof. intros Hname. split; [exact Hname | reflexivity]. Qed.

(** The outcome is the root, or the site of a repository with a name. *)
Lemma determine_shape (i : invocation) :
  BASE_PATH (determine i) = "/"
  \/ (REPO_NAME (determine i) <> EmptyString
      /\ BASE_PATH (determine i) = "/" +:+ REPO_NAME (determine i) +:+ "/").
Proof.
  assert (Hdefault : DEFAULT_NAME <> EmptyString) by discriminate.
  unfold determine.
  destruct (is_empty (expand (arg1 i))
            || String.eqb (expand (arg1 i)) "USER_PAGES"
            || String.eqb (expand (arg1 i)) "user.github.io") eqn:Hspecial.
  - destruct (git_installed i); [|right; now apply project_site_shape].
    destruct (negb (is_empty (remote_url i)));
      [|right; now apply project_site_shape].
    destruct (is_user_page (remote_basename i)); [left; reflexivity|].
    right. apply project_site_shape. now apply or_word_nonempty.
  - destruct (is_user_page (or_word DEFAULT_NAME (expand (arg1 i)))
              || String.eqb (or_word DEFAULT_NAME (expand (arg1 i)))
                            "USER_PAGES"); [left; reflexivity|].
    right. apply project_site_shape. now apply or_word_nonempty.
Qed.

Lemma BASE_PATH_ends_with_slash (i : invocation) :
  endsWith (BASE_PATH (determine i)) "/" = true.
Proof.
  destruct (determine_shape i) as [->|[_ ->]]; [reflexivity|].
  rewrite <- append_assoc. apply endsWith_append.
Qed.

(** X6.  Whatever the argument and whatever git answers, the script exports
    a base path that is either ["/"] or ["/<REPO_NAME>/"] with a non-empty
    [REPO_NAME]; it always ends with ["/"] and is never ["//"]. *)
Theorem exported_base_path_shape (i : invocation) :
  (BASE_PATH (determine i) = "/"
   \/ (REPO_NAME (determine i) <> EmptyString
       /\ BASE_PATH (determine i)
          = "/" +:+ REPO_NAME (determine i) +:+ "/"))
  /\ endsWith (BASE_PATH (determine i)) "/" = true
  /\ BASE_PATH (determine i) <> "//".
Proof.
  split; [apply determine_shape|]. split; [apply BASE_PATH_ends_with_slash|].
  destruct (determine_shape i) as [Hroot|[Hname Hsite]].
  - rewrite Hroot. discriminate.
  - rewrite Hsite. intros Hdouble.
    destruct (REPO_NAME (determine i)) as [|c name]; [congruence|].
    cbn in Hdouble. injection Hdouble as _ Hrest.
    destruct name; discriminate.
Qed.

(** X7.  The build uses exactly the base path the script exported: with the
    environment the script leaves, [defineConfig] returns [BASE_PATH] under
    every mode, and a [GITHUB_REPOSITORY] of the caller's environment has no
    influence. *)
Theorem build_uses_exported_base_path
        (i : invocation) (ambient_repository : option string)
        (mode : string) :
  base (defineConfig mode (build_env i ambient_repository))
  = BASE_PATH (determine i).
Proof.
  unfold build_env. apply base_of_slashed_variable.
  apply BASE_PATH_ends_with_slash.
Qed.

(** X8.  The three special arguments and the missing argument are treated
    alike: with no argument, an empty one, [USER_PAGES] or
    [user.github.io], the outcome is the one git detection gives, and it is
    the default project site when git is missing or has no remote; the
    argument [USER_PAGES] alone does not select the root path. *)
Theorem special_arguments_defer_to_git
        (a : option string) (git : bool) (url name : string) :
  In a [None; Some EmptyString; Some "USER_PAGES"; Some "user.github.io"] ->
  determine {| arg1 := a; git_installed := git;
               remote_url := url; remote_basename := name |}
  = determine {| arg1 := None; git_installed := git;
                 remote_url := url; remote_basename := name |}
  /\ (git = false \/ url = EmptyString ->
      determine {| arg1 := a; git_installed := git;
                   remote_url := url; remote_basename := name |}
      = {| REPO_NAME := "CSE-140-Website";
           BASE_PATH := "/CSE-140-Website/" |}).
Proof.
  intros Ha.
  assert (Hsame :
            determine {| arg1 := a; git_installed := git;
                         remote_url := url; remote_basename := name |}
            = determine {| arg1 := None; git_installed := git;
                           remote_url := url; remote_basename := name |}).
  { simpl in Ha. destruct Ha as [<-|[<-|[<-|[<-|[]]]]]; reflexivity. }
  split; [exact Hsame|].
  intros Hnogit. rewrite Hsame. unfold determine.
  cbn [arg1 git_installed remote_url expand is_empty orb].
  destruct Hnogit as [->| ->]; [reflexivity|].
  destruct git; reflexivity.
Qed.

Lemma special_arguments_defer_to_git_witness :
  determine {| arg1 := Some "USER_PAGES"; git_installed := false;
               remote_url := EmptyString; remote_basename := EmptyString |}
  = {| REPO_NAME := "CSE-140-Website"; BASE_PATH := "/CSE-140-Website/" |}.
Proof.
  apply (proj2 (special_arguments_defer_to_git
                  (Some "USER_PAGES") false EmptyString EmptyString
                  (or_intror (or_intror (or_introl eq_refl))))).
  now left.
Defined.

Lemma user_page_is_named (name : string) :
  is_user_page name = true ->
  is_empty name = false /\ String.eqb name "USER_PAGES" = false.
Proof.
  intros Hpage. split.
  - destruct name; [discriminate | reflexivity].
  - destruct (String.eqb_spec name "USER_PAGES") as [->|_];
      [discriminate | reflexivity].
Qed.

(** The three ways the script ends: a detected user page, a project site,
    or an explicit user page. *)
Lemma determine_cases (i : invocation) :
  determine i = {| REPO_NAME := EmptyString; BASE_PATH := "/" |}
  \/ (exists name, name <> EmptyString /\ determine i = project_site name)
  \/ (exists name,
         is_user_page name || String.eqb name "USER_PAGES" = true
         /\ determine i = {| REPO_NAME := name; BASE_PATH := "/" |}).
Proof.
  assert (Hdefault : DEFAULT_NAME <> EmptyString) by discriminate.
  unfold determine.
  destruct (is_empty (expand (arg1 i))
            || String.eqb (expand (arg1 i)) "USER_PAGES"
            || String.eqb (expand (arg1 i)) "user.github.io").
  - destruct (git_installed i); [|right; left; eauto].
    destruct (negb (is_empty (remote_url i))); [|right; left; eauto].
    destruct (is_user_page (remote_basename i)); [left; reflexivity|].
    right; left. eexists. split; [|reflexivity]. now apply or_word_nonempty.
  - destruct (is_user_page (or_word DEFAULT_NAME (expand (arg1 i)))
              || String.eqb (or_word DEFAULT_NAME (expand (arg1 i)))
                            "USER_PAGES") eqn:Hpage.
    + right; right. eexists. split; [exact Hpage | reflexivity].
    + right; left. eexists. split; [|reflexivity].
      now apply or_word_nonempty.
Qed.

(** X9.  The base path the script prints before the build is the one it
    exports, unless the repository name ends with [.github.io] or is
    [USER_PAGES].  For an explicit argument that ends with [.github.io]
    (other than the literal [user.github.io]) the two differ: the script
    exports ["/"] and prints ["/<argument>/"]. *)
Theorem announced_base_path_accuracy :
  (forall i,
      is_user_page (REPO_NAME (determine i)) = false ->
      REPO_NAME (determine i) <> "USER_PAGES" ->
      announced_base_path (determine i) = BASE_PATH (determine i))
  /\ (forall name git url detected,
         is_user_page name = true ->
         name <> "user.github.io" ->
         let o := determine {| arg1 := Some name; git_installed := git;
                               remote_url := url;
                               remote_basename := detected |} in
         BASE_PATH o = "/"
         /\ announced_base_path o = "/" +:+ name +:+ "/").
Proof.
  split.
  - intros i Hpage Hname.
    destruct (determine_cases i)
      as [Hroot|[(name & Hne & Hsite)|(name & Hexplicit & Hroot)]].
    + rewrite Hroot. reflexivity.
    + rewrite Hsite in Hname |- *. cbn [REPO_NAME project_site] in Hname.
      unfold announced_base_path. cbn [REPO_NAME BASE_PATH project_site].
      destruct name as [|c name]; [congruence|]. cbn [is_empty orb].
      destruct (String.eqb_spec (String c name) "USER_PAGES") as [Heq|_];
        [congruence | reflexivity].
    + rewrite Hroot in Hpage, Hname. cbn [REPO_NAME] in Hpage, Hname.
      rewrite Hpage in Hexplicit. cbn [orb] in Hexplicit.
      apply String.eqb_eq in Hexplicit. congruence.
  - intros name git url detected Hpage Hliteral o.
    destruct (user_page_is_named name Hpage) as [Hne Hnot].
    assert (Hnotliteral : String.eqb name "user.github.io" = false).
    { now apply String.eqb_neq. }
    assert (Ho : o = {| REPO_NAME := name; BASE_PATH := "/" |}).
    { subst o. unfold determine. cbn [arg1 expand].
      rewrite Hne, Hnot, Hnotliteral. cbn [orb].
      unfold or_word. rewrite Hne, Hpage. reflexivity. }
    rewrite Ho. split; [reflexivity|].
    unfold announced_base_path. cbn [REPO_NAME]. now rewrite Hne, Hnot.
Qed.

Lemma announced_base_path_accuracy_witness :
  announced_base_path
    (determine {| arg1 := Some "CSE140-Website"; git_installed := true;
                  remote_url := "git@github.com:niloomon/CSE140-Website.git";
                  remote_basename := "CSE140-Website" |})
  = "/CSE140-Website/"
  /\ announced_base_path
       (determine {| arg1 := Some "niloomon.github.io";
                     git_installed := true;
                     remote_url := EmptyString;
                     remote_basename := EmptyString |})
     = "/niloomon.github.io/".
Proof.
  split.
  - apply (proj1 announced_base_path_accuracy
             {| arg1 := Some "CSE140-Website"; git_installed := true;
                remote_url := "git@github.com:niloomon/CSE140-Website.git";
                remote_basename := "CSE140-Website" |}).
    + reflexivity.
    + discriminate.
  - apply (proj2 announced_base_path_accuracy
             "niloomon.github.io" true EmptyString EmptyString).
    + reflexivity.
    + discriminate.
Defined.

End BuildScriptFacts.

(** ** The loading flag along a trace *)

Module TraceFacts.
Import Jsx GoogleDocEmbed GoogleDocEmbedFacts Traces.

Lemma placeholder_mounted_iff_loading (h : hooks) :
  placeholder_mounted (render h) = isLoading h.
Proof. destruct h as [[|] r]; reflexivity. Qed.

(** A signal keeps a displayed instance displayed. *)
Lemma deliver_displayed (s : signal) (i : instance) :
  stage i = Displayed ->
  stage (deliver s i) = Displayed
  /\ isLoading (state (deliver s i))
     = isLoading (state i) && negb (String.eqb "onLoad" (prop s)).
Proof.
  intros Hstage. unfold deliver. rewrite Hstage, listener_cases.
  destruct (String.eqb "onLoad" (prop s)); cbn [stage state negb].
  - split; [reflexivity | now rewrite andb_false_r].
  - split; [exact Hstage | now rewrite andb_true_r].
Qed.

Lemma loading_along_trace (evs : list event) :
  forall i,
    stage i = Displayed ->
    isLoading (state (run i evs))
    = isLoading (state i) && negb (load_while_displayed evs).
Proof.
  induction evs as [|ev evs IH]; intros i Hstage.
  - cbn. now rewrite andb_true_r.
  - cbn [run foldl]. fold (run (step i ev) evs). destruct ev as [s|].
    + cbn [step load_while_displayed].
      destruct (deliver_displayed s i Hstage) as [Hkept Hflag].
      rewrite (IH _ Hkept), Hflag, negb_orb. now rewrite andb_assoc.
    + cbn [step load_while_displayed negb]. rewrite run_torn_down.
      cbn [teardown state isLoading]. now rewrite andb_true_r.
Qed.

Lemma stage_along_trace (evs : list event) :
  forall i,
    stage (run i evs)
    = if existsb is_teardown evs then TornDown else stage i.
Proof.
  induction evs as [|ev evs IH]; intros i; [reflexivity|].
  cbn [run foldl existsb]. fold (run (step i ev) evs). destruct ev as [s|].
  - cbn [step is_teardown orb]. rewrite IH.
    assert (Hkept : stage (deliver s i) = stage i).
    { unfold deliver. destruct (stage i) eqn:Hstage; [|exact Hstage].
      destruct (listener (prop s) (state i)); [reflexivity | exact Hstage]. }
    now rewrite Hkept.
  - cbn [step is_teardown orb]. now rewrite run_torn_down.
Qed.

Lemma load_while_displayed_without_teardown (evs : list event) :
  existsb is_teardown evs = false ->
  load_while_displayed evs = existsb is_load evs.
Proof.
  induction evs as [|ev evs IH]; intros Hnone; [reflexivity|].
  cbn [existsb] in Hnone. apply orb_false_elim in Hnone as [Hev Hrest].
  destruct ev as [s|]; [|discriminate Hev].
  cbn [load_while_displayed existsb is_load]. now rewrite (IH Hrest).
Qed.

(** X10.  After any sequence of events, an instance that was displayed is
    loading exactly when it was loading before and no signal to [onLoad]
    arrived before the first teardown.  If the sequence has a teardown,
    nothing is on the page afterwards; if it has none, the render output is
    on the page and the placeholder is in it exactly when the instance was
    loading and no signal to [onLoad] arrived. *)
Theorem loading_until_first_load (evs : list event) (i : instance) :
  stage i = Displayed ->
  isLoading (state (run i evs))
  = isLoading (state i) && negb (load_while_displayed evs)
  /\ (existsb is_teardown evs = true -> view (run i evs) = None)
  /\ (existsb is_teardown evs = false ->
      view (run i evs) = Some (render (state (run i evs)))
      /\ placeholder_mounted (render (state (run i evs)))
         = isLoading (state i) && negb (existsb is_load evs)).
Proof.
  intros Hstage. split; [now apply loading_along_trace|].
  pose proof (stage_along_trace evs i) as Hphase. split.
  - intros Htorn. rewrite Htorn in Hphase. unfold view. now rewrite Hphase.
  - intros Hnone. rewrite Hnone, Hstage in Hphase. split.
    + unfold view. now rewrite Hphase.
    + rewrite placeholder_mounted_iff_loading.
      rewrite (loading_along_trace evs i Hstage).
      now rewrite (load_while_displayed_without_teardown evs Hnone).
Qed.

Lemma loading_until_first_load_witness :
  isLoading
    (state (run mount
              [ Signal {| prop := "onError"; underlying_error := true |};
                Teardown;
                Signal (load_signal false) ])) = true
  /\ view (run mount [ Teardown; Signal (load_signal false) ]) = None
  /\ placeholder_mounted
       (render (state (run mount [ Signal (load_signal false) ]))) = false.
Proof.
  split; [|split].
  - apply (proj1 (loading_until_first_load
                    [ Signal {| prop := "onError"; underlying_error := true |};
                      Teardown;
                      Signal (load_signal false) ] mount eq_refl)).
  - apply (proj1 (proj2 (loading_until_first_load
                           [ Teardown; Signal (load_signal false) ]
                           mount eq_refl))).
    reflexivity.
  - apply (proj2 (proj2 (proj2 (loading_until_first_load
                                  [ Signal (load_signal false) ]
                                  mount eq_refl)) eq_refl)).
Defined.

End TraceFacts.

(** ** The hover listeners of [Spotlight] *)

Module SpotlightFacts.
Import Spotlight.

Lemma existsb_same_app (type : string) (f : function_object)
      (a b : listener_list) :
  existsb (same_listener type f) (a ++ b)%list
  = existsb (same_listener type f) a || existsb (same_listener type f) b.
Proof. apply List.existsb_app. Qed.

(** A function created later is not in the list. *)
Lemma later_function_absent (type : string) (f : function_object)
      (next : nat) (ls : listener_list) :
  created_before next ls -> next <= identity f ->
  existsb (same_listener type f) ls = false.
Proof.
  intros Hls Hf. induction Hls as [|entry rest Hentry _ IH]; [reflexivity|].
  cbn [existsb]. rewrite IH, orb_false_r. unfold same_listener.
  replace (Nat.eqb (identity (snd entry)) (identity f)) with false.
  - apply andb_false_r.
  - symmetry. apply Nat.eqb_neq. lia.
Qed.

Lemma remove_absent (type : string) (f : function_object)
      (ls : listener_list) :
  existsb (same_listener type f) ls = false ->
  removeEventListener type f ls = ls.
Proof.
  induction ls as [|entry rest IH]; intros Habsent; [reflexivity|].
  cbn [existsb] in Habsent. apply orb_false_elim in Habsent as [Hentry Hrest].
  cbn [removeEventListener]. rewrite Hentry. now rewrite (IH Hrest).
Qed.

Lemma remove_after_absent (type : string) (f : function_object)
      (a b : listener_list) :
  existsb (same_listener type f) a = false ->
  removeEventListener type f (a ++ b)%list
  = (a ++ removeEventListener type f b)%list.
Proof.
  induction a as [|entry rest IH]; intros Habsent; [reflexivity|].
  cbn [existsb] in Habsent. apply orb_false_elim in Habsent as [Hentry Hrest].
  cbn [app removeEventListener]. rewrite Hentry. now rewrite (IH Hrest).
Qed.

Lemma remove_first (type : string) (f : function_object)
      (rest : listener_list) :
  removeEventListener type f ((type, f) :: rest) = rest.
Proof.
  cbn [removeEventListener]. unfold same_listener. cbn [fst snd].
  now rewrite String.eqb_refl, Nat.eqb_refl.
Qed.

Lemma add_absent (type : string) (f : function_object) (ls : listener_list) :
  existsb (same_listener type f) ls = false ->
  addEventListener type f ls = (ls ++ [(type, f)])%list.
Proof. intros Habsent. unfold addEventListener. now rewrite Habsent. Qed.

(** What the parent has after the effect ran, in a well-formed DOM. *)
Lemma listeners_after_setup (f : function_object) (d : dom) :
  created_before (next_identity d) (parent_listeners d) ->
  identity f < next_identity d ->
  existsb (same_listener "mousemove" f) (parent_listeners d) = false ->
  parent_listeners (effect_setup f d)
  = (parent_listeners d
     ++ [ ("mousemove", f);
          ("mouseenter",
           {| identity := next_identity d; body := SetIsHovered true |});
          ("mouseleave",
           {| identity := S (next_identity d);
              body := SetIsHovered false |}) ])%list.
Proof.
  intros Hwf Hf Hnew. unfold effect_setup. cbn [parent_listeners].
  rewrite (add_absent "mousemove" f _ Hnew).
  rewrite (add_absent "mouseenter").
  2:{ rewrite existsb_same_app.
      rewrite (later_function_absent _ _ (next_identity d)) by (auto; cbn; lia).
      reflexivity. }
  rewrite (add_absent "mouseleave").
  2:{ rewrite !existsb_same_app.
      rewrite (later_function_absent _ _ (next_identity d)) by (auto; cbn; lia).
      reflexivity. }
  now rewrite <- !app_assoc.
Qed.

(** X11.  The cleanup of the effect does not undo the effect.  It removes
    the [mousemove] listener, but the [mouseenter] and [mouseleave]
    listeners stay on the parent element, because the cleanup passes two
    newly created arrow functions to [removeEventListener].  Without a
    parent element the effect registers nothing. *)
Theorem cleanup_leaves_hover_listeners (f : function_object) (d : dom) :
  created_before (next_identity d) (parent_listeners d) ->
  identity f < next_identity d ->
  existsb (same_listener "mousemove" f) (parent_listeners d) = false ->
  parent_listeners (mount_unmount true f d)
  = (parent_listeners d
     ++ [ ("mouseenter",
           {| identity := next_identity d; body := SetIsHovered true |});
          ("mouseleave",
           {| identity := S (next_identity d);
              body := SetIsHovered false |}) ])%list
  /\ mount_unmount false f d = d.
Proof.
  intros Hwf Hf Hnew. split; [|reflexivity].
  unfold mount_unmount, effect, effect_cleanup. cbn [parent_listeners].
  rewrite (listeners_after_setup f d Hwf Hf Hnew).
  cbn [effect_setup next_identity].
  rewrite (remove_after_absent "mousemove" f _ _ Hnew).
  rewrite (remove_first "mousemove" f).
  assert (Hwf' : created_before (S (S (next_identity d)))
                   (parent_listeners d
                    ++ [ ("mouseenter",
                          {| identity := next_identity d;
                             body := SetIsHovered true |});
                         ("mouseleave",
                          {| identity := S (next_identity d);
                             body := SetIsHovered false |}) ])%list).
  { apply Forall_app. split.
    - eapply Forall_impl; [exact Hwf|]. cbn. intros entry Hentry. lia.
    - repeat constructor; cbn; lia. }
  rewrite (remove_absent "mouseenter").
  2:{ apply (later_function_absent _ _ _ _ Hwf'). cbn. lia. }
  rewrite (remove_absent "mouseleave").
  2:{ apply (later_function_absent _ _ _ _ Hwf'). cbn. lia. }
  reflexivity.
Qed.

Lemma cleanup_leaves_hover_listeners_witness :
  parent_listeners
    (mount_unmount true {| identity := 0; body := HandleMouseMove |}
       {| parent_listeners := []; next_identity := 1 |})
  = [ ("mouseenter", {| identity := 1; body := SetIsHovered true |});
      ("mouseleave", {| identity := 2; body := SetIsHovered false |}) ].
Proof.
  apply (cleanup_leaves_hover_listeners
           {| identity := 0; body := HandleMouseMove |}
           {| parent_listeners := []; next_identity := 1 |}).
  - constructor.
  - cbn. lia.
  - reflexivity.
Defined.

Lemma listeners_of_app (type : string) (a b : listener_list) :
  listeners_of type (a ++ b)%list
  = (listeners_of type a ++ listeners_of type b)%list.
Proof. unfold listeners_of. now rewrite List.filter_app, map_app. Qed.

Lemma dispatch_app (type : string) (a b : listener_list) (hovered : bool) :
  dispatch type (a ++ b)%list hovered
  = dispatch type b (dispatch type a hovered).
Proof. unfold dispatch. now rewrite listeners_of_app, foldl_app. Qed.

(** X12.  While the component is mounted on a parent element, [isHovered]
    follows the pointer: after the effect ran, a [mouseenter] on the parent
    leaves [isHovered] true and a [mouseleave] leaves it false, whatever it
    was before and whatever listeners the parent already had. *)
Theorem hover_follows_the_pointer
        (f : function_object) (d : dom) (hovered : bool) :
  created_before (next_identity d) (parent_listeners d) ->
  identity f < next_identity d ->
  existsb (same_listener "mousemove" f) (parent_listeners d) = false ->
  dispatch "mouseenter" (parent_listeners (effect_setup f d)) hovered = true
  /\ dispatch "mouseleave" (parent_listeners (effect_setup f d)) hovered
     = false.
Proof.
  intros Hwf Hf Hnew. rewrite (listeners_after_setup f d Hwf Hf Hnew).
  rewrite !dispatch_app. split; reflexivity.
Qed.

Lemma hover_follows_the_pointer_witness :
  dispatch "mouseenter"
    (parent_listeners
       (effect_setup {| identity := 0; body := HandleMouseMove |}
          {| parent_listeners := []; next_identity := 1 |})) false = true.
Proof.
  apply (hover_follows_the_pointer
           {| identity := 0; body := HandleMouseMove |}
           {| parent_listeners := []; next_identity := 1 |} false).
  - constructor.
  - cbn. lia.
  - reflexivity.
Defined.

End SpotlightFacts.
